(** * Ext.ux.tree.TreeGridNodeUI.updateColumns (TreeGridNodeUIFix.js)

    A shallow embedding of the override installed by
    [Ext.override(Ext.ux.tree.TreeGridNodeUI, { updateColumns: ... })]
    and the properties of the row refresh it performs.

    Scope of the model.
    - Attribute values and column texts are JavaScript values; numbers are
      the integer-valued ones (and NaN), objects are kept only through
      their string conversion.  Property lookup [a[k]] sees own properties
      only.
    - A template ([c.tpl]) is a pure total function from the attribute
      mapping to markup, as [Ext.Template.apply] is meant to be.
    - A DOM element is a reference; the store maps an element to the markup
      last assigned to its [innerHTML].  Parsing of that markup by the
      browser is outside the model.
    - [i] and [len] are not declared in the function, so the assignments in
      the loop header go to the global object (the file is not in strict
      mode); the global object is part of the state. *)

From Stdlib Require Import ZArith.
From stdpp Require Import base option list gmap strings pretty.

Local Open Scope string_scope.
Local Open Scope nat_scope.

(** ** JavaScript values *)

Module JS.

Inductive Value : Type :=
| Undefined
| Null
| Bool (b : bool)
| Number (n : Z)
| NaN
| String (s : string)
| Object (str : string).   (* an object (always truthy); [str] is what its
                              toString() yields *)

(** ToBoolean: the falsy values are undefined, null, false, 0, NaN and
    the empty string. *)
Definition ToBoolean (v : Value) : bool :=
  match v with
  | Undefined | Null | NaN => false
  | Bool b => b
  | Number n => negb (n =? 0)%Z
  | String s => match s with EmptyString => false | _ => true end
  | Object _ => true
  end.

(** ToString. *)
Definition ToString (v : Value) : string :=
  match v with
  | Undefined => "undefined"
  | Null => "null"
  | Bool true => "true"
  | Bool false => "false"
  | Number n => pretty n
  | NaN => "NaN"
  | String s => s
  | Object str => str
  end.

(** The conversion applied by the [innerHTML] setter: a DOMString
    attribute that turns null into the empty string. *)
Definition DOMString (v : Value) : string :=
  match v with
  | Null => ""
  | _ => ToString v
  end.

(** [x || y] *)
Definition or (x y : Value) : Value :=
  if ToBoolean x then x else y.

End JS.

(** ** The objects the method reads *)

(** [this.node.attributes] *)
Abbreviation Attributes := (gmap string JS.Value).

(** [a[k]]: a missing property reads as undefined. *)
Definition get (a : Attributes) (k : string) : JS.Value :=
  default JS.Undefined (a !! k).

(** A template; [apply t a] is [t.apply(a)]. *)
Record Template : Type := { apply : Attributes → string }.

(** A column definition of the owning tree. *)
Record Column : Type := {
  tpl : option Template;     (* None: no template configured *)
  dataIndex : string;
  text : JS.Value
}.

(** DOM elements. *)
Definition ref : Type := positive.

Record Node : Type := {
  firstChild : option ref    (* None: null, the node has no child *)
}.

Record Element : Type := {
  childNodes : list Node
}.

(** The node UI object, with what [this.node] and its owner tree hold. *)
Record TreeGridNodeUI : Type := {
  rendered : bool;
  attributes : Attributes;   (* this.node.attributes *)
  columns : list Column;     (* this.node.getOwnerTree().columns *)
  anchor : Node;             (* this.anchor *)
  elNode : Element           (* this.elNode *)
}.

(** ** Program state *)

Record World : Type := {
  this : TreeGridNodeUI;
  innerHTML : gmap ref string;     (* markup of every element *)
  globals : gmap string JS.Value   (* properties of the global object *)
}.

Definition set_innerHTML_of (r : ref) (s : string) (w : World) : World :=
  {| this := this w;
     innerHTML := <[r := s]> (innerHTML w);
     globals := globals w |}.

Definition set_global (x : string) (v : JS.Value) (w : World) : World :=
  {| this := this w;
     innerHTML := innerHTML w;
     globals := <[x := v]> (globals w) |}.

(** ** Completions and the state monad of the method body *)

Inductive Completion (A : Type) : Type :=
| Normal (a : A)
| TypeError          (* an uncaught TypeError *)
| OutOfFuel.         (* the loop bound of the model was exhausted *)
Arguments Normal {A} a.
Arguments TypeError {A}.
Arguments OutOfFuel {A}.

Definition M (A : Type) : Type := World → Completion A * World.

#[global] Instance M_ret : MRet M := λ A a w, (Normal a, w).

#[global] Instance M_bind : MBind M := λ A B f m w,
  match m w with
  | (Normal a, w') => f a w'
  | (TypeError, w') => (TypeError, w')
  | (OutOfFuel, w') => (OutOfFuel, w')
  end.

Definition throw {A : Type} : M A := λ w, (TypeError, w).

Definition out_of_fuel {A : Type} : M A := λ w, (OutOfFuel, w).

(** Use of a value as the base of a property access: undefined and null
    (None) throw. *)
Definition deref {A : Type} (o : option A) : M A :=
  match o with
  | Some x => mret x
  | None => throw
  end.

(** [el.innerHTML = v] *)
Definition assign_innerHTML (r : ref) (v : JS.Value) : M unit :=
  λ w, (Normal tt, set_innerHTML_of r (JS.DOMString v) w).

(** [x = v] for an undeclared [x] *)
Definition assign_global (x : string) (v : JS.Value) : M unit :=
  λ w, (Normal tt, set_global x v w).

(** ** updateColumns *)

(** [(c.tpl ? c.tpl.apply(a) : a[c.dataIndex] || c.text)] *)
Definition cellValue (c : Column) (a : Attributes) : JS.Value :=
  match tpl c with
  | Some t => JS.String (apply t a)
  | None => JS.or (get a (dataIndex c)) (text c)
  end.

(** The same expression where [c] was read from [cols[i]] and may be
    undefined. *)
Definition evalCell (c : option Column) (a : Attributes) : M JS.Value :=
  c ← deref c; mret (cellValue c a).

(** [for (...; i < len; i++) { c = cols[i]; this.elNode.childNodes[i].firstChild.innerHTML = ...; }] *)
Fixpoint for_loop (fuel : nat) (self : TreeGridNodeUI) (a : Attributes)
    (cols : list Column) (i len : nat) : M unit :=
  if decide (i < len) then
    match fuel with
    | O => out_of_fuel
    | S fuel' =>
        let c := cols !! i in
        td ← deref (childNodes (elNode self) !! i);
        div ← deref (firstChild td);
        v ← evalCell c a;
        assign_innerHTML div v;;
        assign_global "i" (JS.Number (Z.of_nat (S i)));;
        for_loop fuel' self a cols (S i) len
    end
  else mret tt.

(** The method body, for the receiver [self]. *)
Definition updateColumns_body (self : TreeGridNodeUI) : M unit :=
  if negb (rendered self) then mret tt
  else
    let a := attributes self in
    let cols := columns self in
    let c := cols !! 0 in
    (* Update the first column *)
    span ← deref (firstChild (anchor self));
    v ← evalCell c a;
    assign_innerHTML span v;;
    (* Update the remaining columns *)
    assign_global "i" (JS.Number 1);;
    assign_global "len" (JS.Number (Z.of_nat (length cols)));;
    for_loop (length cols) self a cols 1 (length cols).

Definition get_this : M TreeGridNodeUI := λ w, (Normal (this w), w).

Definition updateColumns : M unit :=
  self ← get_this; updateColumns_body self.

(** ** Cells *)

(** The element holding the text of cell [i]: the first child of the anchor
    for the first column, the first child of [elNode.childNodes[i]] for the
    others. *)
Definition cellNode (self : TreeGridNodeUI) (i : nat) : option ref :=
  match i with
  | O => firstChild (anchor self)
  | S _ => childNodes (elNode self) !! i ≫= firstChild
  end.

Definition cellText (w : World) (i : nat) : option string :=
  cellNode (this w) i ≫= λ r, innerHTML w !! r.

(** The data-model invariant: every column has its cell, and the cells are
    different elements. *)
Definition cells_ok (self : TreeGridNodeUI) : Prop :=
  ∃ rs : list ref,
    mapM (cellNode self) (seq 0 (length (columns self))) = Some rs ∧ NoDup rs.

(** ** Scenarios *)

Module Scenario.

Definition td (r : positive) : Node := {| firstChild := Some r |}.

(** A row of two cells: the anchor's span is element 1, the first table
    cell starts with the indent span (element 10), the second holds the
    text element 2. *)
Definition row (a : Attributes) (cols : list Column) : World :=
  {| this := {| rendered := true;
                attributes := a;
                columns := cols;
                anchor := td 1;
                elNode := {| childNodes := [td 10; td 2] |} |};
     innerHTML := {[ 1%positive := "old0"; 2%positive := "old1";
                     10%positive := "indent" ]};
     globals := ∅ |}.

Definition col (k : string) (t : string) : Column :=
  {| tpl := None; dataIndex := k; text := JS.String t |}.

Definition name_size : list Column := [col "name" "Name"; col "size" "Size"].

Definition file_txt : World :=
  row {[ "name" := JS.String "file.txt"; "size" := JS.Number 1024 ]} name_size.

Definition empty_name : World :=
  row {[ "name" := JS.String ""; "size" := JS.Number 1024 ]} name_size.

Definition zero_size : World :=
  row {[ "name" := JS.String "file.txt"; "size" := JS.Number 0 ]} name_size.

Definition unchecked : World :=
  row {[ "name" := JS.String "a.txt"; "checked" := JS.Bool false ]}
      [col "name" "Name"; col "checked" "Checked"].

(** A template in the manner of ['<b>{name}</b>']. *)
Definition bold_name : Template :=
  {| apply := λ a, "<b>" +:+ JS.ToString (get a "name") +:+ "</b>" |}.

Definition templated : World :=
  row {[ "name" := JS.String "file.txt"; "size" := JS.Number 1024 ]}
      [ {| tpl := Some bold_name; dataIndex := "size";
           text := JS.String "Name" |};
        col "size" "Size" ].

Definition unrendered (w : World) : World :=
  {| this := {| rendered := false;
                attributes := attributes (this w);
                columns := columns (this w);
                anchor := anchor (this w);
                elNode := elNode (this w) |};
     innerHTML := innerHTML w;
     globals := globals w |}.

End Scenario.

(** ** Rows off the data-model invariant *)

Module Edge.

Definition with_anchor (n : Node) (w : World) : World :=
  {| this := {| rendered := rendered (this w);
                attributes := attributes (this w);
                columns := columns (this w);
                anchor := n;
                elNode := elNode (this w) |};
     innerHTML := innerHTML w;
     globals := globals w |}.

(** Three columns over the two cells of the scenario row. *)
Definition three_columns : World :=
  Scenario.row {[ "name" := JS.String "file.txt"; "size" := JS.Number 1024;
                  "progress" := JS.Number 50 ]}
    [Scenario.col "name" "Name"; Scenario.col "size" "Size";
     Scenario.col "progress" "Progress"].

(** A tree without columns. *)
Definition no_columns : World :=
  Scenario.row {[ "name" := JS.String "file.txt" ]} [].

(** An anchor without a child. *)
Definition no_span : World :=
  with_anchor {| firstChild := None |} Scenario.file_txt.

(** The anchor's first child is the text element of the second cell. *)
Definition shared_cell : World :=
  with_anchor (Scenario.td 2) Scenario.file_txt.

(** The scenario row after other markup and other globals were left
    behind. *)
Definition stale : World :=
  set_global "len" (JS.String "seven")
    (set_innerHTML_of 1%positive "stale"
       (set_innerHTML_of 10%positive "deep" Scenario.file_txt)).

End Edge.

(** ** The display value as the specification words it *)

(** "template.apply(attributes) if the column has a configured template,
    else attributes[dataIndex] if present, else the column's static
    fallback text". *)
Definition cellValue_if_present (c : Column) (a : Attributes) : JS.Value :=
  match tpl c with
  | Some t => JS.String (apply t a)
  | None =>
      match a !! dataIndex c with
      | Some v => v
      | None => text c
      end
  end.

(** "attributes[dataIndex] is present and non-empty". *)
Definition present_nonempty (a : Attributes) (k : string) : bool :=
  match a !! k with
  | Some (JS.String EmptyString) => false
  | Some _ => true
  | None => false
  end.

(** ** Overlaying states

    Every operation of the body only overwrites entries of the element
    store and of the global object; it reads neither.  So a run from
    [overlay e w] is the run from [e], laid over [w]. *)

Definition overlay (e w : World) : World :=
  {| this := this w;
     innerHTML := innerHTML e ∪ innerHTML w;
     globals := globals e ∪ globals w |}.

Definition blank (w : World) : World :=
  {| this := this w; innerHTML := ∅; globals := ∅ |}.

Definition local {A : Type} (m : M A) : Prop :=
  ∀ e w, m (overlay e w) = ((m e).1, overlay (m e).2 w).

(** ** Frames

    The receiver (its attributes, its tree's columns, its elements) is
    never changed, and of the global object only [i] and [len] can be. *)

Definition frames {A : Type} (m : M A) : Prop :=
  ∀ w, this (m w).2 = this w
     ∧ ∀ x, x ≠ "i" → x ≠ "len" → globals (m w).2 !! x = globals w !! x.

(** ** Running the monad *)

Lemma run_bind {A B : Type} (m : M A) (f : A → M B) (w : World) :
  (m ≫= f) w =
  match m w with
  | (Normal a, w') => f a w'
  | (TypeError, w') => (TypeError, w')
  | (OutOfFuel, w') => (OutOfFuel, w')
  end.
Proof. reflexivity. Qed.

Lemma run_ret {A : Type} (a : A) (w : World) : (mret a : M A) w = (Normal a, w).
Proof. reflexivity. Qed.

Lemma run_deref_Some {A : Type} (x : A) (w : World) :
  deref (Some x) w = (Normal x, w).
Proof. reflexivity. Qed.

Lemma run_deref_None {A : Type} (w : World) :
  deref (@None A) w = (TypeError, w).
Proof. reflexivity. Qed.

Lemma run_updateColumns (w : World) :
  updateColumns w = updateColumns_body (this w) w.
Proof. reflexivity. Qed.

Lemma for_loop_unfold fuel self a cols i len :
  for_loop fuel self a cols i len =
  if decide (i < len) then
    match fuel with
    | O => out_of_fuel
    | S fuel' =>
        td ← deref (childNodes (elNode self) !! i);
        div ← deref (firstChild td);
        v ← evalCell (cols !! i) a;
        assign_innerHTML div v;;
        assign_global "i" (JS.Number (Z.of_nat (S i)));;
        for_loop fuel' self a cols (S i) len
    end
  else mret tt.
Proof. destruct fuel; reflexivity. Qed.

Lemma updateColumns_body_not_rendered self :
  rendered self = false → updateColumns_body self = mret tt.
Proof. unfold updateColumns_body. by intros ->. Qed.

Lemma updateColumns_body_rendered self :
  rendered self = true →
  updateColumns_body self =
    (span ← deref (firstChild (anchor self));
     v ← evalCell (columns self !! 0) (attributes self);
     assign_innerHTML span v;;
     assign_global "i" (JS.Number 1);;
     assign_global "len" (JS.Number (Z.of_nat (length (columns self))));;
     for_loop (length (columns self)) self (attributes self) (columns self)
       1 (length (columns self))).
Proof. unfold updateColumns_body. by intros ->. Qed.

(** ** Termination: the fuel given by [updateColumns_body] is enough *)



(** ** The effect of the method does not depend on the store it starts from *)

Lemma overlay_blank w : overlay (blank w) w = w.
Proof.
  destruct w as [t h g]. unfold overlay, blank; simpl.
  by rewrite !(left_id_L ∅ (∪)).
Qed.

Lemma overlay_idemp e w : overlay e (overlay e w) = overlay e w.
Proof.
  unfold overlay; simpl.
  by rewrite !(assoc_L (∪)), !(idemp_L (∪)).
Qed.

Lemma overlay_blank_l w w' : this w' = this w → overlay (blank w) w' = w'.
Proof.
  destruct w' as [t h g]. unfold overlay, blank; simpl. intros _.
  by rewrite !(left_id_L ∅ (∪)).
Qed.

Lemma local_ret {A : Type} (a : A) : local (mret a : M A).
Proof. done. Qed.

Lemma local_throw {A : Type} : local (@throw A).
Proof. done. Qed.

Lemma local_out_of_fuel {A : Type} : local (@out_of_fuel A).
Proof. done. Qed.

Lemma local_deref {A : Type} (o : option A) : local (deref o).
Proof. by destruct o. Qed.

Lemma local_bind {A B : Type} (m : M A) (f : A → M B) :
  local m → (∀ a, local (f a)) → local (m ≫= f).
Proof.
  intros Hm Hf e w. rewrite !run_bind, Hm.
  destruct (m e) as [[a| |] e']; simpl; [apply Hf|done..].
Qed.

Lemma local_assign_innerHTML r v : local (assign_innerHTML r v).
Proof.
  intros e w. unfold assign_innerHTML, set_innerHTML_of, overlay; simpl.
  by rewrite insert_union_l.
Qed.

Lemma local_assign_global x v : local (assign_global x v).
Proof.
  intros e w. unfold assign_global, set_global, overlay; simpl.
  by rewrite insert_union_l.
Qed.

Lemma local_evalCell c a : local (evalCell c a).
Proof.
  apply local_bind; [apply local_deref|]. intros; apply local_ret.
Qed.

Create HintDb local.

#[local] Hint Resolve local_ret local_throw local_out_of_fuel local_deref
  local_assign_innerHTML local_assign_global local_evalCell : local.

Lemma local_for_loop fuel self a cols i len :
  local (for_loop fuel self a cols i len).
Proof.
  revert i. induction fuel as [|fuel IH]; intros i;
    rewrite for_loop_unfold; case_decide; auto with local.
  repeat (apply local_bind; [auto with local|intros ?]). apply IH.
Qed.

Lemma local_updateColumns_body self : local (updateColumns_body self).
Proof.
  destruct (rendered self) eqn:Hr.
  - rewrite updateColumns_body_rendered by done.
    repeat (apply local_bind; [auto with local|intros ?]).
    apply local_for_loop.
  - rewrite updateColumns_body_not_rendered by done. apply local_ret.
Qed.

(** The run from any state is the run from the blank state, laid over it. *)
Lemma updateColumns_overlay (w : World) :
  updateColumns w =
    ((updateColumns_body (this w) (blank w)).1,
     overlay (updateColumns_body (this w) (blank w)).2 w).
Proof.
  rewrite run_updateColumns.
  rewrite <- (overlay_blank w) at 2. apply local_updateColumns_body.
Qed.

(** ** The cells after a refresh of a well-formed rendered row *)

Lemma cellNode_S self i :
  1 ≤ i → cellNode self i = childNodes (elNode self) !! i ≫= firstChild.
Proof. destruct i; [lia|done]. Qed.

Lemma cells_ok_lookup self :
  cells_ok self →
  ∃ rs, NoDup rs ∧
    ∀ i, i < length (columns self) →
      ∃ r, cellNode self i = Some r ∧ rs !! i = Some r.
Proof.
  intros (rs & Hm & Hnd). exists rs; split; [done|].
  apply mapM_Some in Hm. intros i Hi.
  destruct (Forall2_lookup_l _ _ _ i i Hm) as (r & Hr & Hc); [|by eauto].
  by apply lookup_seq_lt.
Qed.

Lemma for_loop_cells fuel self a cols i len (w : World) (rs : list ref) :
  NoDup rs →
  (∀ j, i ≤ j < len → ∃ r, cellNode self j = Some r ∧ rs !! j = Some r) →
  1 ≤ i → len ≤ length cols → len - i ≤ fuel →
  ∃ w', for_loop fuel self a cols i len w = (Normal tt, w')
    ∧ this w' = this w
    ∧ (∀ j c r, i ≤ j < len → cols !! j = Some c → rs !! j = Some r →
         innerHTML w' !! r = Some (JS.DOMString (cellValue c a)))
    ∧ (∀ r, (∀ j, i ≤ j < len → rs !! j ≠ Some r) →
         innerHTML w' !! r = innerHTML w !! r).
Proof.
  intros Hnd. revert i w.
  induction fuel as [|fuel IH]; intros i w Hcell Hi Hlen Hfuel;
    rewrite for_loop_unfold; case_decide as Hlt; try lia.
  1,3: by exists w; repeat split; intros; lia.
  destruct (Hcell i) as (ri & Hci & Hri); [lia|].
  rewrite cellNode_S in Hci by done.
  destruct (childNodes (elNode self) !! i) as [td|] eqn:Htd; [|done].
  simpl in Hci.
  destruct (lookup_lt_is_Some_2 cols i) as [ci Hcoli]; [lia|].
  rewrite run_bind, run_deref_Some, run_bind, Hci, run_deref_Some.
  rewrite run_bind, Hcoli.
  set (w1 := set_global "i" (JS.Number (Z.of_nat (S i)))
               (set_innerHTML_of ri (JS.DOMString (cellValue ci a)) w)).
  destruct (IH (S i) w1) as (w' & Hrun & Hthis & Hset & Hframe);
    [intros j Hj; apply Hcell; lia|lia..|].
  exists w'. split; [exact Hrun|]. split; [done|]. split.
  - intros j c r Hj Hc Hr. destruct (decide (j = i)) as [->|Hne].
    + assert (c = ci) as -> by congruence.
      assert (r = ri) as -> by congruence.
      rewrite Hframe; [apply lookup_insert_eq|].
      intros k Hk Hrk. apply (NoDup_lookup _ _ _ _ Hnd Hrk) in Hri. lia.
    + apply (Hset j); [lia|done..].
  - intros r Hr. rewrite Hframe by (intros j Hj; apply Hr; lia).
    apply lookup_insert_ne. intros ->. by apply (Hr i).
Qed.

Lemma updateColumns_cells (w : World) :
  rendered (this w) = true →
  cells_ok (this w) →
  columns (this w) ≠ [] →
  ∃ w', updateColumns w = (Normal tt, w')
    ∧ this w' = this w
    ∧ (∀ i c, columns (this w) !! i = Some c →
         cellText w' i =
           Some (JS.DOMString (cellValue c (attributes (this w)))))
    ∧ (∀ r, (∀ i, i < length (columns (this w)) →
               cellNode (this w) i ≠ Some r) →
         innerHTML w' !! r = innerHTML w !! r).
Proof.
  intros Hrend Hok Hne.
  destruct (cells_ok_lookup _ Hok) as (rs & Hnd & Hcell).
  destruct (columns (this w)) as [|c0 cols'] eqn:Hcols; [done|].
  destruct (Hcell 0) as (r0 & Hc0 & Hr0); [simpl; lia|]. simpl in Hc0.
  rewrite run_updateColumns, updateColumns_body_rendered by done.
  rewrite Hcols, run_bind, Hc0, run_deref_Some, run_bind. cbn [lookup list_lookup].
  set (a := attributes (this w)).
  set (w1 := set_global "len" (JS.Number (Z.of_nat (length (c0 :: cols'))))
               (set_global "i" (JS.Number 1)
                  (set_innerHTML_of r0 (JS.DOMString (cellValue c0 a)) w))).
  destruct (for_loop_cells (length (c0 :: cols')) (this w) a (c0 :: cols')
              1 (length (c0 :: cols')) w1 rs)
    as (w' & Hrun & Hthis & Hset & Hframe);
    [done|intros j Hj; apply Hcell; lia|lia..|].
  exists w'. split; [exact Hrun|]. split; [done|]. split.
  - intros i c Hc. unfold cellText. rewrite Hthis. simpl.
    assert (i < length (c0 :: cols')) as Hi by (by eapply lookup_lt_Some).
    destruct (Hcell i Hi) as (r & Hci & Hri). rewrite Hci. simpl.
    destruct i as [|i].
    + assert (r = r0) as -> by congruence.
      assert (c = c0) as -> by (simpl in Hc; congruence).
      rewrite Hframe; [apply lookup_insert_eq|].
      intros k Hk Hrk. apply (NoDup_lookup _ _ _ _ Hnd Hrk) in Hr0. lia.
    + apply (Hset (S i)); [lia|done..].
  - intros r Hr. rewrite Hframe.
    + apply lookup_insert_ne. intros ->. by apply (Hr 0); [simpl; lia|].
    + intros j Hj Hrj. destruct (Hcell j) as (r' & Hcj & Hrj'); [lia|].
      apply (Hr j); [lia|congruence].
Qed.

(** ** What a call leaves alone *)

Lemma frames_ret {A : Type} (a : A) : frames (mret a : M A).
Proof. done. Qed.

Lemma frames_deref {A : Type} (o : option A) : frames (deref o).
Proof. by destruct o. Qed.

Lemma frames_bind {A B : Type} (m : M A) (f : A → M B) :
  frames m → (∀ a, frames (f a)) → frames (m ≫= f).
Proof.
  intros Hm Hf w. rewrite run_bind. destruct (Hm w) as [Ht Hg].
  destruct (m w) as [[a| |] w1]; simpl in *; [|done..].
  destruct (Hf a w1) as [Ht' Hg']. split; [congruence|].
  intros x Hi Hl. by rewrite Hg', Hg.
Qed.

Lemma frames_assign_innerHTML r v : frames (assign_innerHTML r v).
Proof. done. Qed.

Lemma frames_assign_i v : frames (assign_global "i" v).
Proof. split; [done|]. intros x Hi _. simpl. by rewrite lookup_insert_ne. Qed.

Lemma frames_assign_len v : frames (assign_global "len" v).
Proof. split; [done|]. intros x _ Hl. simpl. by rewrite lookup_insert_ne. Qed.

Lemma frames_evalCell c a : frames (evalCell c a).
Proof.
  apply frames_bind; [apply frames_deref|]. intros; apply frames_ret.
Qed.

Create HintDb frames.

#[local] Hint Resolve frames_ret frames_deref frames_assign_innerHTML
  frames_assign_i frames_assign_len frames_evalCell : frames.

Lemma frames_for_loop fuel self a cols i len :
  frames (for_loop fuel self a cols i len).
Proof.
  revert i. induction fuel as [|fuel IH]; intros i;
    rewrite for_loop_unfold; case_decide; auto with frames; [done|].
  repeat (apply frames_bind; [auto with frames|intros ?]). apply IH.
Qed.

Lemma frames_updateColumns_body self : frames (updateColumns_body self).
Proof.
  destruct (rendered self) eqn:Hr.
  - rewrite updateColumns_body_rendered by done.
    repeat (apply frames_bind; [auto with frames|intros ?]).
    apply frames_for_loop.
  - rewrite updateColumns_body_not_rendered by done. apply frames_ret.
Qed.

Lemma updateColumns_frame (w : World) :
  this (updateColumns w).2 = this w
  ∧ ∀ x, x ≠ "i" → x ≠ "len" →
      globals (updateColumns w).2 !! x = globals w !! x.
Proof. rewrite run_updateColumns. apply frames_updateColumns_body. Qed.

(** Only the cell elements of the receiver are ever assigned. *)
Lemma for_loop_innerHTML_frame fuel self a cols i len (w : World) (r : ref) :
  1 ≤ i →
  (∀ j, cellNode self j ≠ Some r) →
  innerHTML (for_loop fuel self a cols i len w).2 !! r = innerHTML w !! r.
Proof.
  intros Hi Hr. revert i w Hi.
  induction fuel as [|fuel IH]; intros i w Hi;
    rewrite for_loop_unfold; case_decide; try done.
  rewrite run_bind.
  destruct (childNodes (elNode self) !! i) as [td|] eqn:Htd; [|done].
  rewrite run_deref_Some, run_bind.
  destruct (firstChild td) as [div|] eqn:Hdiv; [|done].
  rewrite run_deref_Some, run_bind.
  destruct (cols !! i) as [c|]; [|done].
  etrans; [apply IH; lia|]. simpl.
  apply lookup_insert_ne. intros ->. apply (Hr i).
  rewrite cellNode_S by done. by rewrite Htd.
Qed.

Lemma updateColumns_innerHTML_frame (w : World) (r : ref) :
  (∀ j, cellNode (this w) j ≠ Some r) →
  innerHTML (updateColumns w).2 !! r = innerHTML w !! r.
Proof.
  intros Hr. rewrite run_updateColumns.
  destruct (rendered (this w)) eqn:Hrend;
    [|by rewrite updateColumns_body_not_rendered].
  rewrite updateColumns_body_rendered, run_bind by done.
  destruct (firstChild (anchor (this w))) as [span|] eqn:Hspan; [|done].
  rewrite run_deref_Some, run_bind.
  destruct (columns (this w) !! 0) as [c|]; [|done].
  etrans; [apply for_loop_innerHTML_frame; [lia|done]|]. simpl.
  apply lookup_insert_ne. intros ->. by apply (Hr 0).
Qed.

(** The loop variables live in the global object: a call that completes on
    a rendered row leaves the number of columns in both [i] and [len]. *)
Lemma for_loop_globals fuel self a cols i len (w w' : World) :
  for_loop fuel self a cols i len w = (Normal tt, w') →
  i ≤ len →
  globals w !! "i" = Some (JS.Number (Z.of_nat i)) →
  globals w' !! "i" = Some (JS.Number (Z.of_nat len))
  ∧ globals w' !! "len" = globals w !! "len".
Proof.
  revert i w. induction fuel as [|fuel IH]; intros i w;
    rewrite for_loop_unfold; case_decide as Hlt; try done.
  1,3: by intros [= <-] Hle Hi; replace len with i by lia.
  rewrite run_bind.
  destruct (childNodes (elNode self) !! i) as [td|]; [|done].
  rewrite run_deref_Some, run_bind.
  destruct (firstChild td) as [div|]; [|done].
  rewrite run_deref_Some, run_bind.
  destruct (cols !! i) as [c|]; [|done].
  intros Hrun _ _.
  apply IH in Hrun as [Hi Hl]; [|lia|simpl; apply lookup_insert_eq].
  split; [done|]. rewrite Hl. simpl. by apply lookup_insert_ne.
Qed.

(** X7.  When a call on a rendered row completes normally, the global
    variables [i] and [len] both hold the number of columns of the tree,
    whatever they held before. *)
Lemma updateColumns_globals (w w' : World) :
  rendered (this w) = true →
  updateColumns w = (Normal tt, w') →
  globals w' !! "i"
    = Some (JS.Number (Z.of_nat (length (columns (this w)))))
  ∧ globals w' !! "len"
    = Some (JS.Number (Z.of_nat (length (columns (this w))))).
Proof.
  intros Hrend. rewrite run_updateColumns.
  rewrite updateColumns_body_rendered, run_bind by done.
  destruct (firstChild (anchor (this w))) as [span|]; [|done].
  rewrite run_deref_Some, run_bind.
  destruct (columns (this w) !! 0) as [c|] eqn:Hc; [|done].
  apply lookup_lt_Some in Hc.
  intros Hrun. apply for_loop_globals in Hrun as [Hi Hl]; [|lia|].
  - split; [done|]. rewrite Hl. simpl. apply lookup_insert_eq.
  - simpl. rewrite lookup_insert_ne by done. apply lookup_insert_eq.
Qed.

(** ** The scenario rows are well formed *)

Lemma row_cells_ok a c0 c1 : cells_ok (this (Scenario.row a [c0; c1])).
Proof.
  exists [1%positive; 2%positive]. split; [reflexivity|].
  apply NoDup_cons. split; [|apply NoDup_singleton].
  by intros ?%list_elem_of_singleton.
Qed.

(** * The claims *)

(** C1 (as amended).  For a rendered row whose cells are in place and any
    column [i] of its tree, the refresh completes and cell [i] holds the
    string conversion of: the template's result if the column has a
    template, else the attribute [attributes[dataIndex]] if that value is
    truthy, else the column's fallback text. *)
Theorem updateColumns_precedence (w : World) (i : nat) (c : Column) :
  rendered (this w) = true →
  cells_ok (this w) →
  columns (this w) !! i = Some c →
  ∃ w', updateColumns w = (Normal tt, w')
    ∧ cellText w' i = Some (JS.DOMString
        match tpl c with
        | Some t => JS.String (apply t (attributes (this w)))
        | None =>
            if JS.ToBoolean (get (attributes (this w)) (dataIndex c))
            then get (attributes (this w)) (dataIndex c)
            else text c
        end).
Proof.
  intros Hrend Hok Hc.
  destruct (updateColumns_cells w Hrend Hok) as (w' & Hrun & _ & Hcells & _).
  { intros Hnil. by rewrite Hnil in Hc. }
  exists w'. split; [done|]. by rewrite (Hcells i c Hc).
Qed.

(** C1, witness: the templated first column and the plain second column of
    the scenario row. *)
Lemma updateColumns_precedence_witness :
  (∃ w', updateColumns Scenario.templated = (Normal tt, w')
     ∧ cellText w' 0 = Some "<b>file.txt</b>")
  ∧ (∃ w', updateColumns Scenario.templated = (Normal tt, w')
     ∧ cellText w' 1 = Some "1024").
Proof.
  split.
  - apply (updateColumns_precedence Scenario.templated 0 _
             eq_refl (row_cells_ok _ _ _) eq_refl).
  - apply (updateColumns_precedence Scenario.templated 1 _
             eq_refl (row_cells_ok _ _ _) eq_refl).
Defined.

(** C1, counterexample to the claim as worded ("else attributes[dataIndex]
    if present"): the attribute [checked] is present with value false, yet
    the cell receives the fallback text "Checked", not "false". *)
Lemma present_false_not_displayed :
  let w := Scenario.unchecked in
  let c := Scenario.col "checked" "Checked" in
  rendered (this w) = true
  ∧ columns (this w) !! 1 = Some c
  ∧ attributes (this w) !! dataIndex c = Some (JS.Bool false)
  ∧ (updateColumns w).1 = Normal tt
  ∧ cellText (updateColumns w).2 1 = Some "Checked"
  ∧ cellText (updateColumns w).2 1
      ≠ Some (JS.DOMString (cellValue_if_present c (attributes (this w)))).
Proof. vm_compute. repeat split; discriminate. Qed.

(** C2.  For a row that is not rendered the call returns normally and the
    whole state, the text of every cell included, is what it was. *)
Theorem updateColumns_not_rendered (w : World) :
  rendered (this w) = false →
  updateColumns w = (Normal tt, w).
Proof.
  intros Hrend. by rewrite run_updateColumns, updateColumns_body_not_rendered.
Qed.

(** C2, witness. *)
Lemma updateColumns_not_rendered_witness :
  updateColumns (Scenario.unrendered Scenario.file_txt)
  = (Normal tt, Scenario.unrendered Scenario.file_txt).
Proof.
  apply (updateColumns_not_rendered (Scenario.unrendered Scenario.file_txt)).
  reflexivity.
Defined.

(** C3.  For a rendered row whose cells are in place and a column with a
    template, the cell's text after the refresh is exactly
    [template.apply(attributes)], whatever [dataIndex] and [text] are. *)
Theorem updateColumns_template (w : World) (i : nat) (c : Column) (t : Template) :
  rendered (this w) = true →
  cells_ok (this w) →
  columns (this w) !! i = Some c →
  tpl c = Some t →
  ∃ w', updateColumns w = (Normal tt, w')
    ∧ cellText w' i = Some (apply t (attributes (this w))).
Proof.
  intros Hrend Hok Hc Ht.
  destruct (updateColumns_cells w Hrend Hok) as (w' & Hrun & _ & Hcells & _).
  { intros Hnil. by rewrite Hnil in Hc. }
  exists w'. split; [done|].
  rewrite (Hcells i c Hc). unfold cellValue. by rewrite Ht.
Qed.

(** C3, witness. *)
Lemma updateColumns_template_witness :
  ∃ w', updateColumns Scenario.templated = (Normal tt, w')
    ∧ cellText w' 0
      = Some (apply Scenario.bold_name (attributes (this Scenario.templated))).
Proof.
  apply (updateColumns_template Scenario.templated 0 _ Scenario.bold_name
           eq_refl (row_cells_ok _ _ _) eq_refl eq_refl).
Defined.

(** C4 (as amended).  For a rendered row whose cells are in place and a
    column without a template: if [attributes[dataIndex]] is truthy (not
    undefined, null, false, 0, NaN or the empty string) the cell's text is
    the string conversion of that value; otherwise it is the conversion of
    the column's fallback text. *)
Theorem updateColumns_no_template (w : World) (i : nat) (c : Column) :
  rendered (this w) = true →
  cells_ok (this w) →
  columns (this w) !! i = Some c →
  tpl c = None →
  ∃ w', updateColumns w = (Normal tt, w')
    ∧ (JS.ToBoolean (get (attributes (this w)) (dataIndex c)) = true →
       cellText w' i
       = Some (JS.DOMString (get (attributes (this w)) (dataIndex c))))
    ∧ (JS.ToBoolean (get (attributes (this w)) (dataIndex c)) = false →
       cellText w' i = Some (JS.DOMString (text c))).
Proof.
  intros Hrend Hok Hc Ht.
  destruct (updateColumns_cells w Hrend Hok) as (w' & Hrun & _ & Hcells & _).
  { intros Hnil. by rewrite Hnil in Hc. }
  exists w'. split; [done|].
  rewrite (Hcells i c Hc). unfold cellValue, JS.or. rewrite Ht.
  split; by intros ->.
Qed.

(** C4, witness: the size column of the scenario row, with size 1024. *)
Lemma updateColumns_no_template_witness :
  ∃ w', updateColumns Scenario.file_txt = (Normal tt, w')
    ∧ (true = true → cellText w' 1 = Some "1024")
    ∧ (true = false → cellText w' 1 = Some "Size").
Proof.
  apply (updateColumns_no_template Scenario.file_txt 1 _
           eq_refl (row_cells_ok _ _ _) eq_refl eq_refl).
Defined.

(** C4, counterexample to the claim as worded: [size] is present and not
    empty (it is the number 0), yet the cell receives the fallback text
    "Size", not "0". *)
Lemma zero_size_shows_fallback :
  let w := Scenario.zero_size in
  let c := Scenario.col "size" "Size" in
  rendered (this w) = true
  ∧ columns (this w) !! 1 = Some c
  ∧ tpl c = None
  ∧ present_nonempty (attributes (this w)) (dataIndex c) = true
  ∧ JS.DOMString (get (attributes (this w)) (dataIndex c)) = "0"
  ∧ (updateColumns w).1 = Normal tt
  ∧ cellText (updateColumns w).2 1 = Some "Size"
  ∧ cellText (updateColumns w).2 1
      ≠ Some (JS.DOMString (get (attributes (this w)) (dataIndex c))).
Proof. vm_compute. repeat split; discriminate. Qed.

(** C5.  For a rendered row whose cells are in place, the refresh writes
    column 0's text into the first child of the anchor and, for every
    [i ≥ 1] in range, column [i]'s text into the first child of
    [elNode.childNodes[i]]; no other element is assigned. *)
Theorem updateColumns_positional (w : World) :
  rendered (this w) = true →
  cells_ok (this w) →
  columns (this w) ≠ [] →
  ∃ w', updateColumns w = (Normal tt, w')
    ∧ (∀ c span,
         columns (this w) !! 0 = Some c →
         firstChild (anchor (this w)) = Some span →
         innerHTML w' !! span
         = Some (JS.DOMString (cellValue c (attributes (this w)))))
    ∧ (∀ i c td div,
         1 ≤ i →
         columns (this w) !! i = Some c →
         childNodes (elNode (this w)) !! i = Some td →
         firstChild td = Some div →
         innerHTML w' !! div
         = Some (JS.DOMString (cellValue c (attributes (this w)))))
    ∧ (∀ r,
         (∀ i, i < length (columns (this w)) → cellNode (this w) i ≠ Some r) →
         innerHTML w' !! r = innerHTML w !! r).
Proof.
  intros Hrend Hok Hne.
  destruct (updateColumns_cells w Hrend Hok Hne)
    as (w' & Hrun & Hthis & Hcells & Hframe).
  exists w'. split; [done|]. split; [|split; [|done]].
  - intros c span Hc Hspan. specialize (Hcells 0 c Hc).
    unfold cellText in Hcells. rewrite Hthis in Hcells. simpl in Hcells.
    by rewrite Hspan in Hcells.
  - intros i c td div Hi Hc Htd Hdiv. specialize (Hcells i c Hc).
    unfold cellText in Hcells. rewrite Hthis, cellNode_S in Hcells by done.
    rewrite Htd in Hcells. simpl in Hcells. by rewrite Hdiv in Hcells.
Qed.

(** C5, witness: in the scenario row the anchor's span (element 1) and the
    second cell's text element (element 2) get their columns' texts, and the
    indent span (element 10) at position 0 of the row keeps its markup. *)
Lemma updateColumns_positional_witness :
  ∃ w', updateColumns Scenario.file_txt = (Normal tt, w')
    ∧ innerHTML w' !! 1%positive = Some "file.txt"
    ∧ innerHTML w' !! 2%positive = Some "1024"
    ∧ innerHTML w' !! 10%positive = Some "indent".
Proof.
  destruct (updateColumns_positional Scenario.file_txt
              eq_refl (row_cells_ok _ _ _) ltac:(discriminate))
    as (w' & Hrun & H0 & Hi & Hframe).
  exists w'. split; [exact Hrun|]. split; [|split].
  - exact (H0 _ 1%positive eq_refl eq_refl).
  - exact (Hi 1 _ (Scenario.td 2) 2%positive (le_n 1) eq_refl eq_refl eq_refl).
  - rewrite Hframe; [reflexivity|].
    intros [|[|i]] Hlt; simpl in *; [discriminate|discriminate|lia].
Defined.

(** C6.  Calling the method again on the state the first call left returns
    the same completion and leaves that state as it is, for every row:
    rendered or not, well formed or not.  In particular every cell has the
    same text after the second call as after the first. *)
Theorem updateColumns_idempotent (w : World) :
  updateColumns (updateColumns w).2 = updateColumns w
  ∧ ∀ i, cellText (updateColumns (updateColumns w).2).2 i
         = cellText (updateColumns w).2 i.
Proof.
  assert (updateColumns (updateColumns w).2 = updateColumns w) as Heq.
  { rewrite (updateColumns_overlay w). simpl.
    set (r := updateColumns_body (this w) (blank w)).
    rewrite run_updateColumns. simpl.
    rewrite <- (overlay_blank_l w (overlay r.2 w)) at 1 by done.
    rewrite local_updateColumns_body. fold r. by rewrite overlay_idemp. }
  by rewrite Heq.
Qed.

(** C7, the behaviour of the code on the scenario row: before the call the
    global object has neither [i] nor [len]; after it both exist and hold
    2.  The loop variables are assigned without being declared. *)
Theorem updateColumns_leaks_loop_variables :
  let w := Scenario.file_txt in
  globals w !! "i" = None
  ∧ globals w !! "len" = None
  ∧ (updateColumns w).1 = Normal tt
  ∧ globals (updateColumns w).2 !! "i" = Some (JS.Number 2)
  ∧ globals (updateColumns w).2 !! "len" = Some (JS.Number 2)
  ∧ (updateColumns w).2 ≠ set_innerHTML_of 2%positive "1024"
                            (set_innerHTML_of 1%positive "file.txt" w).
Proof.
  vm_compute. repeat split. discriminate.
Qed.

(** C8.  Attributes [{name: "file.txt", size: 1024}] and the columns
    [[{dataIndex:"name", text:"Name"}, {dataIndex:"size", text:"Size"}]],
    no templates: cell 0 reads "file.txt" and cell 1 reads "1024". *)
Theorem scenario_file_txt (w : World) :
  rendered (this w) = true →
  cells_ok (this w) →
  attributes (this w)
    = {[ "name" := JS.String "file.txt"; "size" := JS.Number 1024 ]} →
  columns (this w) = Scenario.name_size →
  ∃ w', updateColumns w = (Normal tt, w')
    ∧ cellText w' 0 = Some "file.txt"
    ∧ cellText w' 1 = Some "1024".
Proof.
  intros Hrend Hok Ha Hcols.
  destruct (updateColumns_cells w Hrend Hok) as (w' & Hrun & _ & Hcells & _).
  { by rewrite Hcols. }
  rewrite Hcols, Ha in Hcells.
  exists w'. split; [done|]. split.
  - by rewrite (Hcells 0 _ eq_refl).
  - by rewrite (Hcells 1 _ eq_refl).
Qed.

(** C8, witness. *)
Lemma scenario_file_txt_witness :
  ∃ w', updateColumns Scenario.file_txt = (Normal tt, w')
    ∧ cellText w' 0 = Some "file.txt"
    ∧ cellText w' 1 = Some "1024".
Proof.
  apply (scenario_file_txt Scenario.file_txt
           eq_refl (row_cells_ok _ _ _) eq_refl eq_refl).
Defined.

(** C9.  Attributes [{name: "", size: 1024}] and the same columns: cell 0
    reads the fallback "Name", the empty string being falsy, and cell 1
    reads "1024". *)
Theorem scenario_empty_name (w : World) :
  rendered (this w) = true →
  cells_ok (this w) →
  attributes (this w)
    = {[ "name" := JS.String ""; "size" := JS.Number 1024 ]} →
  columns (this w) = Scenario.name_size →
  ∃ w', updateColumns w = (Normal tt, w')
    ∧ cellText w' 0 = Some "Name"
    ∧ cellText w' 1 = Some "1024".
Proof.
  intros Hrend Hok Ha Hcols.
  destruct (updateColumns_cells w Hrend Hok) as (w' & Hrun & _ & Hcells & _).
  { by rewrite Hcols. }
  rewrite Hcols, Ha in Hcells.
  exists w'. split; [done|]. split.
  - by rewrite (Hcells 0 _ eq_refl).
  - by rewrite (Hcells 1 _ eq_refl).
Qed.

(** C9, witness. *)
Lemma scenario_empty_name_witness :
  ∃ w', updateColumns Scenario.empty_name = (Normal tt, w')
    ∧ cellText w' 0 = Some "Name"
    ∧ cellText w' 1 = Some "1024".
Proof.
  apply (scenario_empty_name Scenario.empty_name
           eq_refl (row_cells_ok _ _ _) eq_refl eq_refl).
Defined.

(** C10.  For a rendered row whose cells are in place and a column without
    a template whose attribute is present but falsy (0, false, NaN, null,
    undefined or the empty string), the cell receives the column's fallback
    text: the choice is made by the truthiness of [a[c.dataIndex]]. *)
Theorem updateColumns_falsy_attribute (w : World) (i : nat) (c : Column)
    (v : JS.Value) :
  rendered (this w) = true →
  cells_ok (this w) →
  columns (this w) !! i = Some c →
  tpl c = None →
  attributes (this w) !! dataIndex c = Some v →
  JS.ToBoolean v = false →
  ∃ w', updateColumns w = (Normal tt, w')
    ∧ cellText w' i = Some (JS.DOMString (text c)).
Proof.
  intros Hrend Hok Hc Ht Hv Hfalsy.
  destruct (updateColumns_cells w Hrend Hok) as (w' & Hrun & _ & Hcells & _).
  { intros Hnil. by rewrite Hnil in Hc. }
  exists w'. split; [done|].
  rewrite (Hcells i c Hc). unfold cellValue, JS.or, get.
  by rewrite Ht, Hv; simpl; rewrite Hfalsy.
Qed.

(** C10, witness: the number 0 and the boolean false. *)
Lemma updateColumns_falsy_attribute_witness :
  (∃ w', updateColumns Scenario.zero_size = (Normal tt, w')
     ∧ cellText w' 1 = Some "Size")
  ∧ (∃ w', updateColumns Scenario.unchecked = (Normal tt, w')
     ∧ cellText w' 1 = Some "Checked").
Proof.
  split.
  - apply (updateColumns_falsy_attribute Scenario.zero_size 1 _ (JS.Number 0)
             eq_refl (row_cells_ok _ _ _) eq_refl eq_refl eq_refl eq_refl).
  - apply (updateColumns_falsy_attribute Scenario.unchecked 1 _ (JS.Bool false)
             eq_refl (row_cells_ok _ _ _) eq_refl eq_refl eq_refl eq_refl).
Defined.

(** * Further properties of updateColumns *)

(** ** A run of the loop up to the first missing cell

    The loop started at [i] writes the cells of the columns [i .. k-1] in
    order and then either ends ([k = len]) or throws at column [k], whose
    cell is missing.  An element holds the text of the last column written
    into it. *)
Lemma for_loop_run fuel self a cols i k len (w : World) :
  1 ≤ i → i ≤ k → k ≤ len → len ≤ length cols → len - i ≤ fuel →
  (∀ j, i ≤ j < k → is_Some (cellNode self j)) →
  (k < len → cellNode self k = None) →
  globals w !! "i" = Some (JS.Number (Z.of_nat i)) →
  ∃ w', for_loop fuel self a cols i len w
        = (if decide (k < len) then TypeError else Normal tt, w')
    ∧ (∀ j c r, i ≤ j < k → cols !! j = Some c → cellNode self j = Some r →
         (∀ j', j < j' < k → cellNode self j' ≠ Some r) →
         innerHTML w' !! r = Some (JS.DOMString (cellValue c a)))
    ∧ (∀ r, (∀ j, i ≤ j < k → cellNode self j ≠ Some r) →
         innerHTML w' !! r = innerHTML w !! r)
    ∧ globals w' !! "i" = Some (JS.Number (Z.of_nat k))
    ∧ globals w' !! "len" = globals w !! "len".
Proof.
  revert i w. induction fuel as [|fuel IH];
    intros i w Hi Hik Hkl Hlen Hfuel Hcell Hmiss Hgi;
    rewrite for_loop_unfold; destruct (decide (i < len)) as [Hlt|Hlt];
    try (exfalso; lia).
  1,3: assert (i = k) as -> by lia; exists w; case_decide; [lia|];
       repeat split; [intros; lia|done..].
  destruct (decide (i = k)) as [->|Hne].
  - (* the cell of column [k] is missing *)
    specialize (Hmiss Hlt). rewrite cellNode_S in Hmiss by done.
    exists w. rewrite decide_True by done. split.
    + rewrite run_bind.
      destruct (childNodes (elNode self) !! k) as [td|]; [|done].
      simpl in Hmiss. rewrite run_deref_Some, run_bind. by rewrite Hmiss.
    + repeat split; [intros; lia|done..].
  - destruct (Hcell i) as [ri Hci]; [lia|].
    pose proof Hci as Hci'. rewrite cellNode_S in Hci' by done.
    destruct (childNodes (elNode self) !! i) as [td|] eqn:Htd; [|done].
    simpl in Hci'.
    destruct (lookup_lt_is_Some_2 cols i) as [ci Hcoli]; [lia|].
    rewrite run_bind, run_deref_Some, run_bind, Hci', run_deref_Some.
    rewrite run_bind, Hcoli.
    set (w1 := set_global "i" (JS.Number (Z.of_nat (S i)))
                 (set_innerHTML_of ri (JS.DOMString (cellValue ci a)) w)).
    destruct (IH (S i) w1) as (w' & Hrun & Hset & Hframe & Hgi' & Hgl);
      [lia..|intros j Hj; apply Hcell; lia|done|apply lookup_insert_eq|].
    exists w'. split; [exact Hrun|]. repeat split.
    + intros j c r Hj Hc Hr Hlast. destruct (decide (j = i)) as [->|Hji].
      * assert (c = ci) as -> by congruence.
        assert (r = ri) as -> by congruence.
        rewrite Hframe; [apply lookup_insert_eq|].
        intros j' Hj'. apply Hlast. lia.
      * apply (Hset j); [lia|done..].
    + intros r Hr. rewrite Hframe by (intros j Hj; apply Hr; lia).
      apply lookup_insert_ne. intros ->. by apply (Hr i); [lia|].
    + done.
    + rewrite Hgl. simpl. by apply lookup_insert_ne.
Qed.

(** The same for the whole method on a rendered row with at least one
    column: the anchor's cell is written first. *)
Lemma updateColumns_run (w : World) (k : nat) :
  rendered (this w) = true →
  1 ≤ k → k ≤ length (columns (this w)) →
  (∀ j, j < k → is_Some (cellNode (this w) j)) →
  (k < length (columns (this w)) → cellNode (this w) k = None) →
  ∃ w', updateColumns w
        = (if decide (k < length (columns (this w)))
           then TypeError else Normal tt, w')
    ∧ (∀ j c r, j < k → columns (this w) !! j = Some c →
         cellNode (this w) j = Some r →
         (∀ j', j < j' < k → cellNode (this w) j' ≠ Some r) →
         innerHTML w' !! r
         = Some (JS.DOMString (cellValue c (attributes (this w)))))
    ∧ (∀ r, (∀ j, j < k → cellNode (this w) j ≠ Some r) →
         innerHTML w' !! r = innerHTML w !! r)
    ∧ globals w' !! "i" = Some (JS.Number (Z.of_nat k))
    ∧ globals w' !! "len"
      = Some (JS.Number (Z.of_nat (length (columns (this w))))).
Proof.
  intros Hrend Hk Hkl Hcell Hmiss.
  destruct (Hcell 0) as [r0 Hc0]; [lia|]. pose proof Hc0 as Hc0'.
  simpl in Hc0'.
  destruct (lookup_lt_is_Some_2 (columns (this w)) 0) as [c0 Hcol0]; [lia|].
  rewrite run_updateColumns, updateColumns_body_rendered by done.
  rewrite run_bind, Hc0', run_deref_Some, run_bind, Hcol0.
  set (a := attributes (this w)). set (cols := columns (this w)) in *.
  set (w1 := set_global "len" (JS.Number (Z.of_nat (length cols)))
               (set_global "i" (JS.Number 1)
                  (set_innerHTML_of r0 (JS.DOMString (cellValue c0 a)) w))).
  destruct (for_loop_run (length cols) (this w) a cols 1 k (length cols) w1)
    as (w' & Hrun & Hset & Hframe & Hgi & Hgl);
    [lia..|intros j Hj; apply Hcell; lia|done| |].
  { simpl. rewrite lookup_insert_ne by done. apply lookup_insert_eq. }
  exists w'. split; [exact Hrun|]. repeat split.
  - intros j c r Hj Hc Hr Hlast. destruct j as [|j].
    + assert (c = c0) as -> by congruence.
      assert (r = r0) as -> by congruence.
      rewrite Hframe; [apply lookup_insert_eq|].
      intros j' Hj'. apply Hlast. lia.
    + apply (Hset (S j)); [lia|done..].
  - intros r Hr. rewrite Hframe by (intros j Hj; apply Hr; lia).
    apply lookup_insert_ne. intros ->. by apply (Hr 0); [lia|].
  - done.
  - rewrite Hgl. simpl. apply lookup_insert_eq.
Qed.

(** The first column without a cell, if there is one. *)
Lemma first_missing_cell self (n : nat) :
  (∀ j, j < n → is_Some (cellNode self j))
  ∨ ∃ k, k < n ∧ cellNode self k = None
         ∧ ∀ j, j < k → is_Some (cellNode self j).
Proof.
  induction n as [|n [IH|(k & Hk & Hnone & Hlow)]].
  - left. intros j Hj. lia.
  - destruct (cellNode self n) as [r|] eqn:Hn.
    + left. intros j Hj. destruct (decide (j = n)) as [->|]; [by eexists|].
      apply IH. lia.
    + right. exists n. eauto.
  - right. exists k. split; [lia|done].
Qed.

(** Only the cells of the tree's columns are assigned. *)
Lemma for_loop_writes_within fuel self a cols i len (w : World) (r : ref) :
  1 ≤ i →
  (∀ j, i ≤ j < len → cellNode self j ≠ Some r) →
  innerHTML (for_loop fuel self a cols i len w).2 !! r = innerHTML w !! r.
Proof.
  intros Hi Hr. revert i w Hi Hr.
  induction fuel as [|fuel IH]; intros i w Hi Hr;
    rewrite for_loop_unfold; case_decide as Hlt; try done.
  rewrite run_bind.
  destruct (childNodes (elNode self) !! i) as [td|] eqn:Htd; [|done].
  rewrite run_deref_Some, run_bind.
  destruct (firstChild td) as [div|] eqn:Hdiv; [|done].
  rewrite run_deref_Some, run_bind.
  destruct (cols !! i) as [c|]; [|done].
  etrans; [apply IH; [lia|intros j Hj; apply Hr; lia]|]. simpl.
  apply lookup_insert_ne. intros ->. apply (Hr i); [lia|].
  rewrite cellNode_S by done. by rewrite Htd.
Qed.


(** X2.  On a rendered row whose anchor has no child, or whose tree has no
    columns, the call throws a TypeError before anything is assigned: the
    state is what it was. *)
Theorem updateColumns_throws_at_first_column (w : World) :
  rendered (this w) = true →
  firstChild (anchor (this w)) = None ∨ columns (this w) = [] →
  updateColumns w = (TypeError, w).
Proof.
  intros Hrend Hbad.
  rewrite run_updateColumns, updateColumns_body_rendered, run_bind by done.
  destruct Hbad as [Hspan|Hcols]; [by rewrite Hspan|].
  destruct (firstChild (anchor (this w))) as [span|]; [|done].
  rewrite run_deref_Some, run_bind. by rewrite Hcols.
Qed.

(** X2, witness: an anchor without child, and a tree without columns. *)
Lemma updateColumns_throws_at_first_column_witness :
  updateColumns Edge.no_span = (TypeError, Edge.no_span)
  ∧ updateColumns Edge.no_columns = (TypeError, Edge.no_columns).
Proof.
  split.
  - apply (updateColumns_throws_at_first_column Edge.no_span eq_refl).
    left. reflexivity.
  - apply (updateColumns_throws_at_first_column Edge.no_columns eq_refl).
    right. reflexivity.
Defined.

(** X3.  On a rendered row the call completes normally exactly when the
    tree has at least one column and every column has its cell element
    (the anchor's first child for column 0, the first child of
    [elNode.childNodes[i]] for column [i]). *)
Theorem updateColumns_normal_iff (w : World) :
  rendered (this w) = true →
  (updateColumns w).1 = Normal tt
  ↔ columns (this w) ≠ []
    ∧ ∀ i, i < length (columns (this w)) → is_Some (cellNode (this w) i).
Proof.
  intros Hrend. split.
  - intros Hnormal.
    assert (columns (this w) ≠ []) as Hne.
    { intros Hnil. revert Hnormal.
      rewrite run_updateColumns, updateColumns_body_rendered, run_bind by done.
      destruct (firstChild (anchor (this w))) as [span|]; [|done].
      rewrite run_deref_Some, run_bind. by rewrite Hnil. }
    split; [done|].
    destruct (first_missing_cell (this w) (length (columns (this w))))
      as [Hall|(k & Hk & Hnone & Hlow)]; [done|].
    exfalso. destruct k as [|k].
    + revert Hnormal. simpl in Hnone.
      rewrite run_updateColumns, updateColumns_body_rendered, run_bind by done.
      by rewrite Hnone.
    + destruct (updateColumns_run w (S k)) as (w' & Hrun & _);
        [done|lia|lia|done|done|].
      rewrite Hrun, decide_True in Hnormal by done. done.
  - intros [Hne Hall].
    assert (1 ≤ length (columns (this w))) as Hlen.
    { destruct (columns (this w)); [done|simpl; lia]. }
    destruct (updateColumns_run w (length (columns (this w))))
      as (w' & Hrun & _); [done|lia|lia|done|lia|].
    rewrite Hrun, decide_False by lia. done.
Qed.

(** X3, witness: the scenario row completes normally, having its two
    columns and their two cells. *)
Lemma updateColumns_normal_iff_witness :
  (updateColumns Scenario.file_txt).1 = Normal tt
  ↔ columns (this Scenario.file_txt) ≠ []
    ∧ ∀ i, i < length (columns (this Scenario.file_txt)) →
           is_Some (cellNode (this Scenario.file_txt) i).
Proof.
  apply (updateColumns_normal_iff Scenario.file_txt). reflexivity.
Defined.

(** X4.  A rendered row on which column [k >= 1] is the first without
    a cell element: the call throws a TypeError at column [k], after it has
    rewritten the cells of the columns before [k] and nothing else; the
    global [i] is left at [k] and the global [len] at the number of
    columns.  The refresh is not all-or-nothing. *)
Theorem updateColumns_partial_update (w : World) (k : nat) :
  rendered (this w) = true →
  1 ≤ k → k < length (columns (this w)) →
  (∀ j, j < k → is_Some (cellNode (this w) j)) →
  cellNode (this w) k = None →
  ∃ w', updateColumns w = (TypeError, w')
    ∧ (∀ j c r, j < k → columns (this w) !! j = Some c →
         cellNode (this w) j = Some r →
         (∀ j', j < j' < k → cellNode (this w) j' ≠ Some r) →
         innerHTML w' !! r
         = Some (JS.DOMString (cellValue c (attributes (this w)))))
    ∧ (∀ r, (∀ j, j < k → cellNode (this w) j ≠ Some r) →
         innerHTML w' !! r = innerHTML w !! r)
    ∧ globals w' !! "i" = Some (JS.Number (Z.of_nat k))
    ∧ globals w' !! "len"
      = Some (JS.Number (Z.of_nat (length (columns (this w))))).
Proof.
  intros Hrend Hk Hlt Hcell Hnone.
  destruct (updateColumns_run w k) as (w' & Hrun & Hrest);
    [done|done|lia|done|done|].
  rewrite decide_True in Hrun by done. by exists w'.
Qed.

(** X4, witness: three columns over a row of two cells.  The first two
    cells are rewritten, then the call throws with [i = 2] and [len = 3]. *)
Lemma updateColumns_partial_update_witness :
  ∃ w', updateColumns Edge.three_columns = (TypeError, w')
    ∧ innerHTML w' !! 1%positive = Some "file.txt"
    ∧ innerHTML w' !! 2%positive = Some "1024"
    ∧ innerHTML w' !! 10%positive = Some "indent"
    ∧ globals w' !! "i" = Some (JS.Number 2)
    ∧ globals w' !! "len" = Some (JS.Number 3).
Proof.
  destruct (updateColumns_partial_update Edge.three_columns 2)
    as (w' & Hrun & Hset & Hframe & Hi & Hlen).
  - reflexivity.
  - lia.
  - simpl. lia.
  - intros [|[|j]] Hj; [by eexists|by eexists|lia].
  - reflexivity.
  - exists w'. split; [exact Hrun|]. repeat split.
    + etrans; [|reflexivity].
      apply (Hset 0 (Scenario.col "name" "Name") 1%positive);
        [lia|reflexivity|reflexivity|].
      intros [|[|j']] Hj'; simpl; [lia|discriminate|lia].
    + etrans; [|reflexivity].
      apply (Hset 1 (Scenario.col "size" "Size") 2%positive);
        [lia|reflexivity|reflexivity|].
      intros j' Hj'. lia.
    + rewrite Hframe; [reflexivity|].
      intros [|[|j]] Hj; simpl; [discriminate|discriminate|lia].
    + exact Hi.
    + exact Hlen.
Defined.

(** X5.  A rendered row with at least one column whose columns all have a
    cell element, the elements not necessarily different: the call
    completes, and every cell element holds the text of the last column
    that uses it, the columns being written in order from 0. *)
Theorem updateColumns_last_write_wins (w : World) :
  rendered (this w) = true →
  columns (this w) ≠ [] →
  (∀ j, j < length (columns (this w)) → is_Some (cellNode (this w) j)) →
  ∃ w', updateColumns w = (Normal tt, w')
    ∧ ∀ j c r, columns (this w) !! j = Some c →
        cellNode (this w) j = Some r →
        (∀ j', j < j' < length (columns (this w)) →
               cellNode (this w) j' ≠ Some r) →
        innerHTML w' !! r
        = Some (JS.DOMString (cellValue c (attributes (this w)))).
Proof.
  intros Hrend Hne Hcell.
  assert (1 ≤ length (columns (this w))) as Hlen.
  { destruct (columns (this w)); [done|simpl; lia]. }
  destruct (updateColumns_run w (length (columns (this w))))
    as (w' & Hrun & Hset & _); [done|lia|lia|done|lia|].
  rewrite decide_False in Hrun by lia.
  exists w'. split; [done|]. intros j c r Hc Hr Hlast.
  apply (Hset j c r); [by eapply lookup_lt_Some|done..].
Qed.

(** X5, witness: the anchor's first child is also the text element of the
    second cell; after the call it shows the second column's text, and so
    does cell 0. *)
Lemma updateColumns_last_write_wins_witness :
  ∃ w', updateColumns Edge.shared_cell = (Normal tt, w')
    ∧ innerHTML w' !! 2%positive = Some "1024"
    ∧ cellText w' 0 = Some "1024".
Proof.
  destruct (updateColumns_last_write_wins Edge.shared_cell)
    as (w' & Hrun & Hset).
  - reflexivity.
  - discriminate.
  - intros [|[|j]] Hj; [by eexists|by eexists|simpl in Hj; lia].
  - assert (innerHTML w' !! 2%positive = Some "1024") as H2.
    { etrans; [|reflexivity].
      apply (Hset 1 (Scenario.col "size" "Size") 2%positive);
        [reflexivity|reflexivity|].
      intros j' Hj'. simpl in Hj'. lia. }
    exists w'. split; [exact Hrun|]. split; [exact H2|].
    pose proof (updateColumns_frame Edge.shared_cell) as [Hthis _].
    rewrite Hrun in Hthis. simpl in Hthis.
    unfold cellText. rewrite Hthis. exact H2.
Defined.

(** X6.  For every state, whatever the completion: the receiver (its
    rendered flag, attributes, columns and elements) is unchanged; an
    element that is not the cell of one of the tree's columns keeps its
    markup; every global other than [i] and [len] keeps its value. *)
Theorem updateColumns_touches_only (w : World) :
  this (updateColumns w).2 = this w
  ∧ (∀ r, (∀ j, j < length (columns (this w)) →
               cellNode (this w) j ≠ Some r) →
       innerHTML (updateColumns w).2 !! r = innerHTML w !! r)
  ∧ (∀ x, x ≠ "i" → x ≠ "len" →
       globals (updateColumns w).2 !! x = globals w !! x).
Proof.
  destruct (updateColumns_frame w) as [Hthis Hglobals].
  split; [done|]. split; [|done].
  intros r Hr. rewrite run_updateColumns.
  destruct (rendered (this w)) eqn:Hrend;
    [|by rewrite updateColumns_body_not_rendered].
  rewrite updateColumns_body_rendered, run_bind by done.
  destruct (firstChild (anchor (this w))) as [span|] eqn:Hspan; [|done].
  rewrite run_deref_Some, run_bind.
  destruct (columns (this w) !! 0) as [c|] eqn:Hc; [|done].
  apply lookup_lt_Some in Hc.
  etrans; [apply for_loop_writes_within; [lia|]|].
  - intros j Hj. apply Hr. lia.
  - simpl. apply lookup_insert_ne. intros ->. by apply (Hr 0).
Qed.

(** X7, witness: the scenario row, two columns. *)
Lemma updateColumns_globals_witness :
  globals (updateColumns Scenario.file_txt).2 !! "i" = Some (JS.Number 2)
  ∧ globals (updateColumns Scenario.file_txt).2 !! "len" = Some (JS.Number 2).
Proof.
  apply (updateColumns_globals Scenario.file_txt
           (updateColumns Scenario.file_txt).2 eq_refl).
  reflexivity.
Defined.

(** X8.  What a call does is decided by the receiver alone, not by the
    markup or the globals it finds: two states with the same receiver get
    the same completion; every element either ends with the same markup in
    both or is left untouched in both; and the same holds for every
    global. *)
Theorem updateColumns_history_independent (w1 w2 : World) :
  this w1 = this w2 →
  (updateColumns w1).1 = (updateColumns w2).1
  ∧ (∀ r, innerHTML (updateColumns w1).2 !! r
          = innerHTML (updateColumns w2).2 !! r
        ∨ (innerHTML (updateColumns w1).2 !! r = innerHTML w1 !! r
           ∧ innerHTML (updateColumns w2).2 !! r = innerHTML w2 !! r))
  ∧ (∀ x, globals (updateColumns w1).2 !! x
          = globals (updateColumns w2).2 !! x
        ∨ (globals (updateColumns w1).2 !! x = globals w1 !! x
           ∧ globals (updateColumns w2).2 !! x = globals w2 !! x)).
Proof.
  intros Hthis.
  rewrite (updateColumns_overlay w1), (updateColumns_overlay w2).
  assert (blank w1 = blank w2) as -> by (unfold blank; by rewrite Hthis).
  rewrite Hthis.
  set (e := (updateColumns_body (this w2) (blank w2)).2). simpl.
  split; [done|]. split.
  - intros r. destruct (innerHTML e !! r) as [s|] eqn:He.
    + left. by rewrite !(lookup_union_Some_l _ _ _ _ He).
    + right. by rewrite !lookup_union_r.
  - intros x. destruct (globals e !! x) as [v|] eqn:He.
    + left. by rewrite !(lookup_union_Some_l _ _ _ _ He).
    + right. by rewrite !lookup_union_r.
Qed.

(** X8, witness: the scenario row, fresh and with stale markup and globals:
    both cells end alike, the indent span keeps what each state had. *)
Lemma updateColumns_history_independent_witness :
  (updateColumns Scenario.file_txt).1 = (updateColumns Edge.stale).1
  ∧ innerHTML (updateColumns Scenario.file_txt).2 !! 1%positive
    = innerHTML (updateColumns Edge.stale).2 !! 1%positive
  ∧ innerHTML (updateColumns Edge.stale).2 !! 10%positive = Some "deep".
Proof.
  destruct (updateColumns_history_independent Scenario.file_txt Edge.stale
              eq_refl) as (Hcompl & Hmarkup & _).
  split; [exact Hcompl|]. split; [|reflexivity].
  destruct (Hmarkup 1%positive) as [Heq|[Hfresh _]]; [exact Heq|].
  discriminate Hfresh.
Defined.
